(** * Bitmap shifter of the slot-machine animation

    A shallow embedding of [shiftSymbolHorizontal] and [shiftSymbolVertical]
    from [slot_machine_animation/animations.cpp].  Both functions take two
    pointers to [uint8_t[8]] buffers and an [int]; they are embedded as
    computations over a byte-addressed memory.  A computation yields [None]
    where the C++ program has no defined behaviour: signed overflow, a
    shift count outside the width of [int], an access outside allocated
    memory. *)

From Stdlib Require Import ZArith Lia.
From stdpp Require Import gmap.
From coqutil Require Import Byte.

Local Open Scope Z_scope.

(** ** The [int] type

    The width of [int] depends on the board (16 bits on AVR, 32 on ARM and
    ESP32), so it is a parameter; the language guarantees 16 bits at least. *)

Section IntModel.
Variable int_bits : Z.

Definition INT_MAX : Z := 2 ^ (int_bits - 1) - 1.
Definition INT_MIN : Z := - 2 ^ (int_bits - 1).

(** A mathematical result is a value of [int] only when representable. *)
Definition int_of (z : Z) : option Z :=
  if (INT_MIN <=? z) && (z <=? INT_MAX) then Some z else None.

Definition int_add (a b : Z) : option Z := int_of (a + b).
Definition int_sub (a b : Z) : option Z := int_of (a - b).

(** [a % b]: truncated remainder; undefined for [b = 0] and when the
    quotient is not representable. *)
Definition int_rem (a b : Z) : option Z :=
  if b =? 0 then None
  else match int_of (Z.quot a b) with
       | Some _ => Some (Z.rem a b)
       | None => None
       end.

(** [a << n] on [int]: the count must lie in [0, int_bits), the left
    operand must be non-negative and [a * 2^n] representable.  This is the
    strictest of the language versions; later ones define more shifts, with
    the same value where this one is defined. *)
Definition int_shl (a n : Z) : option Z :=
  if (0 <=? n) && (n <? int_bits) && (0 <=? a) then int_of (a * 2 ^ n)
  else None.

(** [a >> n] on [int]: the count must lie in [0, int_bits); an arithmetic
    shift, as the compiler implements it for a negative [a]. *)
Definition int_shr (a n : Z) : option Z :=
  if (0 <=? n) && (n <? int_bits) then Some (Z.shiftr a n) else None.

Definition int_or (a b : Z) : Z := Z.lor a b.
End IntModel.

(** Integral promotion of a [uint8_t] to [int], which holds all its values,
    and conversion back (modulo 256). *)
Definition promote (b : byte) : Z := byte.unsigned b.
Definition to_uint8 (z : Z) : byte := byte.of_Z z.

(** ** Memory and computations *)

Abbreviation mem := (gmap Z byte).

Definition M (A : Type) : Type := mem -> option (A * mem).

#[export] Instance M_ret : MRet M := fun A a m => Some (a, m).
#[export] Instance M_bind : MBind M := fun A B f c m =>
  match c m with
  | Some (a, m') => f a m'
  | None => None
  end.

(** A pure step that may be undefined. *)
Definition ub {A : Type} (o : option A) : M A := fun m =>
  match o with
  | Some a => Some (a, m)
  | None => None
  end.

Definition load (p : Z) : M byte := fun m =>
  match m !! p with
  | Some b => Some (b, m)
  | None => None
  end.

Definition store (p : Z) (v : byte) : M unit := fun m =>
  match m !! p with
  | Some _ => Some (tt, <[p := v]> m)
  | None => None
  end.

Section Code.
Variable int_bits : Z.

(** [for (int r = lo; r < hi; r++) body], with [n = hi - lo] rounds left. *)
Fixpoint for_upto (n : nat) (r : Z) (body : Z -> M unit) : M unit :=
  match n with
  | O => mret tt
  | S n' =>
      body r ≫= fun _ =>
      ub (int_add int_bits r 1) ≫= fun r' =>
      for_upto n' r' body
  end.

Definition for_range (lo hi : Z) (body : Z -> M unit) : M unit :=
  for_upto (Z.to_nat (hi - lo)) lo body.

(** [(row << shift) | (row >> (8 - shift))], converted to [uint8_t]. *)
Definition rotate_row (row : byte) (shift : Z) : option byte :=
  match int_shl int_bits (promote row) shift with
  | None => None
  | Some hi =>
      match int_sub int_bits 8 shift with
      | None => None
      | Some k =>
          match int_shr int_bits (promote row) k with
          | None => None
          | Some lo => Some (to_uint8 (int_or hi lo))
          end
      end
  end.

Definition shiftSymbolHorizontal (inp out : Z) (shift : Z) : M unit :=
  for_range 0 8 (fun r =>
    load (inp + r) ≫= fun row =>
    ub (rotate_row row shift) ≫= fun v =>
    store (out + r) v).

(** [shift = ((shift % 8) + 8) % 8]. *)
Definition normalize (shift : Z) : option Z :=
  match int_rem int_bits shift 8 with
  | None => None
  | Some a =>
      match int_add int_bits a 8 with
      | None => None
      | Some b => int_rem int_bits b 8
      end
  end.

(** [(r - shift + 8) % 8]. *)
Definition source_row (r shift : Z) : option Z :=
  match int_sub int_bits r shift with
  | None => None
  | Some a =>
      match int_add int_bits a 8 with
      | None => None
      | Some b => int_rem int_bits b 8
      end
  end.

Definition shiftSymbolVertical (inp out : Z) (shift : Z) : M unit :=
  ub (normalize shift) ≫= fun shift =>
  for_range 0 8 (fun r =>
    ub (source_row r shift) ≫= fun i =>
    load (inp + i) ≫= fun v =>
    store (out + r) v).
End Code.

(** ** Buffers *)

(** The eight bytes at [p], when all are allocated. *)
Definition read_symbol (m : mem) (p : Z) : option (list byte) :=
  mapM (fun r => m !! (p + r)) (seqZ 0 8).

Definition allocated (m : mem) (p : Z) : bool :=
  forallb (fun r => bool_decide (is_Some (m !! (p + r)))) (seqZ 0 8).

(** The two buffers do not overlap. *)
Definition disjoint (p q : Z) : Prop := p + 8 <= q \/ q + 8 <= p.

Definition in_buffer (p a : Z) : Prop := p <= a < p + 8.

(** Number of lit pixels of a row and of a symbol. *)
Definition popcount (b : byte) : Z :=
  foldr (fun c acc => Z.b2z (Z.testbit (byte.unsigned b) c) + acc) 0 (seqZ 0 8).

Definition lit_pixels (s : list byte) : Z :=
  foldr (fun b acc => popcount b + acc) 0 s.

(** A memory holding [s] at address 0 and zeros in the sixteen bytes after. *)
Definition demo_mem (s : list byte) : mem :=
  list_to_map (zip (seqZ 0 24) (s ++ replicate 16 Byte.x00)).

Definition demo_symbol : list byte :=
  [Byte.x01; Byte.x82; Byte.xff; Byte.x00; Byte.x3c; Byte.x7e; Byte.x18; Byte.xa5].

(** The symbol left at [out] by a call that starts in [demo_mem s]. *)
Definition run_symbol (c : M unit) (s : list byte) (out : Z) : option (list byte) :=
  match c (demo_mem s) with
  | Some (_, m') => read_symbol m' out
  | None => None
  end.

Definition pixel_symbol : list byte := Byte.x01 :: replicate 7 Byte.x00.
Definition bar_symbol : list byte := Byte.xff :: replicate 7 Byte.x00.


(** Values of [int] and the rotation of a row when it is defined. *)
Definition is_int (int_bits z : Z) : Prop :=
  INT_MIN int_bits <= z <= INT_MAX int_bits.

Definition rotl8 (b : byte) (s : Z) : byte :=
  to_uint8 (Z.lor (promote b * 2 ^ s) (Z.shiftr (promote b) (8 - s))).

(** [m'] is [m] with the buffer at [out] overwritten by the rows [f]. *)
Definition fills (m m' : mem) (out : Z) (f : Z -> option byte) : Prop :=
  (forall a, ~ in_buffer out a -> m' !! a = m !! a) /\
  (forall r, 0 <= r < 8 -> is_Some (f r) /\ m' !! (out + r) = f r).

(** * Properties *)

(** ** Arithmetic on [int] without overflow *)

Section IntFacts.
Variable int_bits : Z.
Hypothesis int_bits_min : 16 <= int_bits.

Lemma INT_MAX_ge : 32767 <= INT_MAX int_bits.
Proof.
  unfold INT_MAX.
  assert (2 ^ 15 <= 2 ^ (int_bits - 1)) by (apply Z.pow_le_mono_r; lia).
  change (2 ^ 15) with 32768 in *. lia.
Qed.

Lemma INT_MIN_le : INT_MIN int_bits <= -32768.
Proof. pose proof INT_MAX_ge. unfold INT_MAX, INT_MIN in *. lia. Qed.

Lemma int_of_is_int z : is_int int_bits z -> int_of int_bits z = Some z.
Proof.
  unfold is_int, int_of. intros [Hlo Hhi].
  apply Z.leb_le in Hlo, Hhi. now rewrite Hlo, Hhi.
Qed.

Lemma is_int_small z : -32768 <= z <= 32767 -> is_int int_bits z.
Proof. pose proof INT_MAX_ge. pose proof INT_MIN_le. unfold is_int. lia. Qed.

Lemma int_of_small z : -32768 <= z <= 32767 -> int_of int_bits z = Some z.
Proof. intros. now apply int_of_is_int, is_int_small. Qed.

Lemma int_rem_8 a : is_int int_bits a -> int_rem int_bits a 8 = Some (Z.rem a 8).
Proof.
  intros Ha. unfold int_rem. simpl.
  rewrite int_of_is_int; [reflexivity|].
  pose proof INT_MAX_ge. pose proof INT_MIN_le. unfold is_int in *.
  Z.to_euclidean_division_equations. lia.
Qed.

Lemma rem_rem_8 s : Z.rem (Z.rem s 8 + 8) 8 = s mod 8.
Proof. Z.to_euclidean_division_equations. lia. Qed.

Lemma rem_row r e : 0 <= r < 8 -> 0 <= e < 8 -> Z.rem (r - e + 8) 8 = (r - e) mod 8.
Proof. intros. Z.to_euclidean_division_equations. lia. Qed.

Lemma normalize_mod s :
  is_int int_bits s -> normalize int_bits s = Some (s mod 8).
Proof.
  intros Hs. unfold normalize. rewrite int_rem_8 by assumption.
  assert (-8 < Z.rem s 8 < 8) by (Z.to_euclidean_division_equations; lia).
  unfold int_add. rewrite int_of_small by lia.
  rewrite int_rem_8 by (apply is_int_small; lia).
  now rewrite rem_rem_8.
Qed.

Lemma source_row_mod r e :
  0 <= r < 8 -> 0 <= e < 8 -> source_row int_bits r e = Some ((r - e) mod 8).
Proof.
  intros Hr He. unfold source_row, int_sub, int_add.
  rewrite !int_of_small by lia.
  rewrite int_rem_8 by (apply is_int_small; lia).
  now rewrite rem_row.
Qed.

Lemma rotate_row_defined b s :
  0 <= s <= 7 -> rotate_row int_bits b s = Some (rotl8 b s).
Proof.
  intros Hs. pose proof (byte.unsigned_range b) as Hb.
  change (2 ^ 8) with 256 in Hb.
  unfold rotate_row, int_shl, int_sub, int_shr, promote.
  assert (1 <= 2 ^ s <= 2 ^ 7) as Hp.
  { split; [apply (Z.pow_le_mono_r 2 0 s); lia | apply Z.pow_le_mono_r; lia]. }
  change (2 ^ 7) with 128 in Hp.
  replace ((0 <=? s) && (s <? int_bits) && (0 <=? byte.unsigned b)) with true
    by (symmetry; rewrite !andb_true_iff, !Z.leb_le, Z.ltb_lt; lia).
  rewrite int_of_small by nia.
  rewrite int_of_small by lia.
  replace ((0 <=? 8 - s) && (8 - s <? int_bits)) with true
    by (symmetry; rewrite andb_true_iff, Z.leb_le, Z.ltb_lt; lia).
  reflexivity.
Qed.
End IntFacts.

(** ** Bits of a rotated row *)

Lemma unsigned_testbit_high b c : 8 <= c -> Z.testbit (byte.unsigned b) c = false.
Proof.
  intros Hc. pose proof (byte.unsigned_range b) as Hb.
  rewrite <- (Z.mod_small (byte.unsigned b) (2 ^ 8)) by assumption.
  apply Z.mod_pow2_bits_high. lia.
Qed.

Lemma byte_eq_bits x y :
  (forall c, 0 <= c < 8 ->
     Z.testbit (byte.unsigned x) c = Z.testbit (byte.unsigned y) c) ->
  x = y.
Proof.
  intros H. apply byte.unsigned_inj, Z.bits_inj'. intros c Hc.
  destruct (Z.lt_ge_cases c 8).
  - apply H. lia.
  - now rewrite !unsigned_testbit_high.
Qed.

Lemma rotl8_testbit b s c :
  0 <= s <= 7 -> 0 <= c < 8 ->
  Z.testbit (byte.unsigned (rotl8 b s)) c =
  Z.testbit (byte.unsigned b) ((c - s) mod 8).
Proof.
  intros Hs Hc. unfold rotl8, to_uint8, promote.
  rewrite byte.unsigned_of_Z. unfold byte.wrap.
  rewrite Z.mod_pow2_bits_low by lia.
  rewrite Z.lor_spec, <- Z.shiftl_mul_pow2 by lia.
  rewrite Z.shiftl_spec, Z.shiftr_spec by lia.
  destruct (Z.lt_ge_cases c s).
  - rewrite (Z.testbit_neg_r _ (c - s)) by lia.
    rewrite orb_false_l. f_equal. Z.to_euclidean_division_equations. lia.
  - rewrite (unsigned_testbit_high b (c + (8 - s))) by lia.
    rewrite orb_false_r. f_equal. Z.to_euclidean_division_equations. lia.
Qed.

Lemma popcount_unfold b :
  popcount b =
  let u := byte.unsigned b in
  Z.b2z (Z.testbit u 0) + (Z.b2z (Z.testbit u 1) + (Z.b2z (Z.testbit u 2) +
  (Z.b2z (Z.testbit u 3) + (Z.b2z (Z.testbit u 4) + (Z.b2z (Z.testbit u 5) +
  (Z.b2z (Z.testbit u 6) + (Z.b2z (Z.testbit u 7) + 0))))))).
Proof. reflexivity. Qed.

Lemma small_cases s : 0 <= s < 8 ->
  s = 0 \/ s = 1 \/ s = 2 \/ s = 3 \/ s = 4 \/ s = 5 \/ s = 6 \/ s = 7.
Proof. lia. Qed.

Ltac each_case H :=
  apply small_cases in H;
  repeat (destruct H as [H | H]; [subst |]); [.. | subst].

Lemma popcount_rotl8 b s : 0 <= s <= 7 -> popcount (rotl8 b s) = popcount b.
Proof.
  intros Hs. rewrite !popcount_unfold. cbv zeta.
  rewrite !rotl8_testbit by lia.
  assert (0 <= s < 8) as Hc by lia. clear Hs.
  each_case Hc;
    repeat match goal with
           | |- context [(?a - ?k) mod 8] =>
               let v := eval vm_compute in ((a - k) mod 8) in
               change ((a - k) mod 8) with v
           end; lia.
Qed.

Lemma rotl8_inverse b s : 1 <= s <= 7 -> rotl8 (rotl8 b s) (8 - s) = b.
Proof.
  intros Hs. apply byte_eq_bits. intros c Hc.
  rewrite !rotl8_testbit by (try apply Z.mod_pos_bound; lia).
  f_equal. Z.to_euclidean_division_equations. lia.
Qed.

Lemma rotl8_0 b : rotl8 b 0 = b.
Proof.
  apply byte_eq_bits. intros c Hc. rewrite rotl8_testbit by lia.
  f_equal. Z.to_euclidean_division_equations. lia.
Qed.

(** ** Running the loops *)

Lemma bind_Some {A B} (c : M A) (f : A -> M B) m a m1 :
  c m = Some (a, m1) -> (c ≫= f) m = f a m1.
Proof. intros H. unfold mbind, M_bind. now rewrite H. Qed.

Lemma allocated_spec m p :
  allocated m p = true <-> forall r, 0 <= r < 8 -> is_Some (m !! (p + r)).
Proof.
  unfold allocated.
  change (seqZ 0 8) with [0; 1; 2; 3; 4; 5; 6; 7].
  cbn [forallb]. rewrite !andb_true_iff, !bool_decide_eq_true. split.
  - intros H r Hr. each_case Hr; tauto.
  - intros H. repeat split; apply H; lia.
Qed.

Section Runs.
Variable int_bits : Z.
Hypothesis int_bits_min : 16 <= int_bits.

Lemma for_upto_inv (I : Z -> mem -> Prop) body n r m :
  0 <= r -> r + Z.of_nat n <= 32767 ->
  I r m ->
  (forall i mi, r <= i < r + Z.of_nat n -> I i mi ->
     exists mi', body i mi = Some (tt, mi') /\ I (i + 1) mi') ->
  exists m', for_upto int_bits n r body m = Some (tt, m') /\
             I (r + Z.of_nat n) m'.
Proof.
  revert r m. induction n as [|n IH]; intros r m Hr Hn HI Hbody.
  - exists m. split; [reflexivity|]. now replace (r + Z.of_nat 0) with r by lia.
  - destruct (Hbody r m) as (m1 & Hb & HI1); [lia | assumption |].
    destruct (IH (r + 1) m1) as (m' & Hrun & HI'); [lia | lia | assumption | |].
    { intros i mi Hi. apply Hbody. lia. }
    exists m'. split.
    + cbn [for_upto]. rewrite (bind_Some _ _ _ _ _ Hb).
      unfold int_add. rewrite (int_of_small _ int_bits_min) by lia.
      exact Hrun.
    + now replace (r + Z.of_nat (S n)) with (r + 1 + Z.of_nat n) by lia.
Qed.

(** A loop whose round [r] stores [f r] at [out + r] fills the buffer. *)
Lemma fill_spec body (f : Z -> byte) out m :
  allocated m out = true ->
  (forall r mi, 0 <= r < 8 ->
     (forall a, ~ in_buffer out a -> mi !! a = m !! a) ->
     is_Some (mi !! (out + r)) ->
     body r mi = Some (tt, <[out + r := f r]> mi)) ->
  exists m', for_range int_bits 0 8 body m = Some (tt, m') /\
             fills m m' out (fun r => Some (f r)).
Proof.
  intros Hout Hbody. rewrite allocated_spec in Hout.
  destruct (for_upto_inv
    (fun i mi => (forall a, ~ (out <= a < out + i) -> mi !! a = m !! a) /\
                 (forall j, 0 <= j < i -> mi !! (out + j) = Some (f j)))
    body 8 0 m) as (m' & Hrun & Hframe & Hrows); try lia.
  - split; [reflexivity | intros; lia].
  - intros i mi Hi [Hframe Hrows].
    eexists. split.
    + apply Hbody; [lia | |].
      * intros a Ha. apply Hframe. unfold in_buffer in Ha. lia.
      * rewrite Hframe by lia. apply Hout. lia.
    + split.
      * intros a Ha. rewrite lookup_insert_ne by lia. apply Hframe. lia.
      * intros j Hj. destruct (decide (j = i)) as [->|Hne].
        -- apply lookup_insert_eq.
        -- rewrite lookup_insert_ne by lia. apply Hrows. lia.
  - exists m'. split; [exact Hrun|]. split.
    + intros a Ha. apply Hframe. unfold in_buffer in Ha. simpl. lia.
    + intros r Hr. split; [eauto|]. apply Hrows. simpl. lia.
Qed.

Lemma horizontal_run m inp out shift :
  0 <= shift <= 7 ->
  allocated m inp = true -> allocated m out = true -> disjoint inp out ->
  exists m', shiftSymbolHorizontal int_bits inp out shift m = Some (tt, m') /\
             fills m m' out (fun r => (fun b => rotl8 b shift) <$> m !! (inp + r)).
Proof.
  intros Hs Hin Hout Hdis.
  pose proof (proj1 (allocated_spec m inp) Hin) as Hin'.
  destruct (fill_spec
    (fun r => load (inp + r) ≫= fun row =>
              ub (rotate_row int_bits row shift) ≫= fun v => store (out + r) v)
    (fun r => rotl8 (default Byte.x00 (m !! (inp + r))) shift) out m Hout)
    as (m' & Hrun & Hframe & Hrows).
  - intros r mi Hr Hsame [old Hold].
    destruct (Hin' r Hr) as [b Hb].
    assert (mi !! (inp + r) = Some b) as Hload.
    { rewrite Hsame; [assumption|]. unfold in_buffer, disjoint in *. lia. }
    erewrite bind_Some by (unfold load; rewrite Hload; reflexivity).
    erewrite bind_Some
      by (rewrite (rotate_row_defined _ int_bits_min) by assumption; reflexivity).
    unfold store. now rewrite Hold, Hb.
  - exists m'. split; [exact Hrun|]. split; [exact Hframe|].
    intros r Hr. destruct (Hin' r Hr) as [b Hb].
    destruct (Hrows r Hr) as [_ Hrow].
    rewrite Hrow, Hb. split; [eauto | reflexivity].
Qed.

Lemma vertical_run m inp out shift :
  is_int int_bits shift ->
  allocated m inp = true -> allocated m out = true -> disjoint inp out ->
  exists m', shiftSymbolVertical int_bits inp out shift m = Some (tt, m') /\
             fills m m' out (fun r => m !! (inp + (r - shift) mod 8)).
Proof.
  intros Hs Hin Hout Hdis.
  pose proof (proj1 (allocated_spec m inp) Hin) as Hin'.
  assert (0 <= shift mod 8 < 8) as He by (apply Z.mod_pos_bound; lia).
  assert (forall r, (r - shift mod 8) mod 8 = (r - shift) mod 8) as Hmod.
  { intros r. Z.to_euclidean_division_equations. lia. }
  destruct (fill_spec
    (fun r => ub (source_row int_bits r (shift mod 8)) ≫= fun i =>
              load (inp + i) ≫= fun v => store (out + r) v)
    (fun r => default Byte.x00 (m !! (inp + (r - shift) mod 8))) out m Hout)
    as (m' & Hrun & Hframe & Hrows).
  - intros r mi Hr Hsame [old Hold].
    assert (0 <= (r - shift) mod 8 < 8) as Hi by (apply Z.mod_pos_bound; lia).
    destruct (Hin' _ Hi) as [b Hb].
    assert (mi !! (inp + (r - shift) mod 8) = Some b) as Hload.
    { rewrite Hsame; [assumption|]. unfold in_buffer, disjoint in *. lia. }
    erewrite bind_Some
      by (rewrite (source_row_mod _ int_bits_min), Hmod by assumption; reflexivity).
    erewrite bind_Some by (unfold load; rewrite Hload; reflexivity).
    unfold store. now rewrite Hold, Hb.
  - exists m'. split.
    + unfold shiftSymbolVertical.
      erewrite bind_Some
        by (rewrite (normalize_mod _ int_bits_min) by assumption; reflexivity).
      exact Hrun.
    + split; [exact Hframe|]. intros r Hr.
      assert (0 <= (r - shift) mod 8 < 8) as Hi by (apply Z.mod_pos_bound; lia).
      destruct (Hin' _ Hi) as [b Hb]. destruct (Hrows r Hr) as [_ Hrow].
      rewrite Hrow, Hb. split; [eauto | reflexivity].
Qed.

(** Only the residue of the shift modulo 8 reaches the loop. *)
Lemma vertical_same_residue m inp out s s' :
  is_int int_bits s -> is_int int_bits s' -> s mod 8 = s' mod 8 ->
  shiftSymbolVertical int_bits inp out s m =
  shiftSymbolVertical int_bits inp out s' m.
Proof.
  intros Hs Hs' Heq. unfold shiftSymbolVertical.
  erewrite !bind_Some
    by (rewrite (normalize_mod _ int_bits_min) by eassumption; reflexivity).
  now rewrite Heq.
Qed.
End Runs.

(** ** Buffers across a call *)

Lemma fills_allocated m m' out f p :
  fills m m' out f -> allocated m p = true -> allocated m' p = true.
Proof.
  intros [Hframe Hrows]. rewrite !allocated_spec. intros Hp r Hr.
  destruct (decide (in_buffer out (p + r))) as [Hin|Hin].
  - replace (p + r) with (out + (p + r - out)) by lia.
    destruct (Hrows (p + r - out)) as [Hsome ->]; [unfold in_buffer in Hin; lia|].
    exact Hsome.
  - rewrite Hframe by assumption. now apply Hp.
Qed.

Lemma fills_other m m' out f p r :
  fills m m' out f -> disjoint p out -> 0 <= r < 8 ->
  m' !! (p + r) = m !! (p + r).
Proof.
  intros [Hframe _] Hdis Hr. apply Hframe. unfold in_buffer, disjoint in *. lia.
Qed.

Lemma fills_row m m' out f r :
  fills m m' out f -> 0 <= r < 8 -> m' !! (out + r) = f r.
Proof. intros [_ Hrows] Hr. now apply Hrows. Qed.

Lemma fills_dom m m' out f :
  fills m m' out f -> allocated m out = true -> dom m' = dom m.
Proof.
  intros [Hframe Hrows] Hout. rewrite allocated_spec in Hout.
  apply set_eq. intros a. rewrite !elem_of_dom.
  destruct (decide (in_buffer out a)) as [Hin|Hin].
  - unfold in_buffer in Hin. replace a with (out + (a - out)) by lia.
    destruct (Hrows (a - out)) as [Hsome ->]; [lia|].
    split; [intros _; apply Hout; lia | intros _; exact Hsome].
  - now rewrite Hframe.
Qed.

Lemma allocated_ext m p m' p' :
  (forall r, 0 <= r < 8 -> m !! (p + r) = m' !! (p' + r)) ->
  allocated m p = allocated m' p'.
Proof.
  intros H. unfold allocated.
  change (seqZ 0 8) with [0; 1; 2; 3; 4; 5; 6; 7].
  cbn [forallb]. rewrite !H by lia. reflexivity.
Qed.

Lemma read_symbol_ext m p m' p' :
  (forall r, 0 <= r < 8 -> m !! (p + r) = m' !! (p' + r)) ->
  read_symbol m p = read_symbol m' p'.
Proof.
  intros H. unfold read_symbol.
  change (seqZ 0 8) with [0; 1; 2; 3; 4; 5; 6; 7].
  cbn [mapM]. rewrite !H by lia. reflexivity.
Qed.

Lemma read_symbol_rows m p s :
  read_symbol m p = Some s ->
  exists b0 b1 b2 b3 b4 b5 b6 b7,
    s = [b0; b1; b2; b3; b4; b5; b6; b7] /\
    m !! (p + 0) = Some b0 /\ m !! (p + 1) = Some b1 /\
    m !! (p + 2) = Some b2 /\ m !! (p + 3) = Some b3 /\
    m !! (p + 4) = Some b4 /\ m !! (p + 5) = Some b5 /\
    m !! (p + 6) = Some b6 /\ m !! (p + 7) = Some b7.
Proof.
  unfold read_symbol.
  change (seqZ 0 8) with [0; 1; 2; 3; 4; 5; 6; 7].
  cbn [mapM]. intros H.
  repeat match type of H with
         | context [?m !! ?a] => destruct (m !! a) as [?|]; [|discriminate]
         end.
  cbn in H. injection H as <-. repeat eexists.
Qed.

Lemma rows_read_symbol m p b0 b1 b2 b3 b4 b5 b6 b7 :
  m !! (p + 0) = Some b0 -> m !! (p + 1) = Some b1 ->
  m !! (p + 2) = Some b2 -> m !! (p + 3) = Some b3 ->
  m !! (p + 4) = Some b4 -> m !! (p + 5) = Some b5 ->
  m !! (p + 6) = Some b6 -> m !! (p + 7) = Some b7 ->
  read_symbol m p = Some [b0; b1; b2; b3; b4; b5; b6; b7].
Proof.
  intros H0 H1 H2 H3 H4 H5 H6 H7. unfold read_symbol.
  change (seqZ 0 8) with [0; 1; 2; 3; 4; 5; 6; 7].
  cbn [mapM]. now rewrite H0, H1, H2, H3, H4, H5, H6, H7.
Qed.

Ltac norm_mod8 :=
  repeat match goal with
         | H : context [(?a - ?k) mod 8] |- _ =>
             let v := eval vm_compute in ((a - k) mod 8) in
             progress change ((a - k) mod 8) with v in H
         end.

(** Reading the rows in a rotated order keeps the number of lit pixels. *)
Lemma reindexed_lit_pixels m m' inp out e s :
  0 <= e < 8 ->
  read_symbol m inp = Some s ->
  (forall r, 0 <= r < 8 -> m' !! (out + r) = m !! (inp + (r - e) mod 8)) ->
  exists s', read_symbol m' out = Some s' /\ lit_pixels s' = lit_pixels s.
Proof.
  intros He Hsym Hrow.
  destruct (read_symbol_rows _ _ _ Hsym)
    as (b0 & b1 & b2 & b3 & b4 & b5 & b6 & b7 & -> & H0 & H1 & H2 & H3 & H4 & H5 & H6 & H7).
  pose proof (Hrow 0 ltac:(lia)) as R0. pose proof (Hrow 1 ltac:(lia)) as R1.
  pose proof (Hrow 2 ltac:(lia)) as R2. pose proof (Hrow 3 ltac:(lia)) as R3.
  pose proof (Hrow 4 ltac:(lia)) as R4. pose proof (Hrow 5 ltac:(lia)) as R5.
  pose proof (Hrow 6 ltac:(lia)) as R6. pose proof (Hrow 7 ltac:(lia)) as R7.
  clear Hrow Hsym.
  each_case He; norm_mod8;
    repeat match goal with
           | R : _ = m !! ?a, H : m !! ?a = Some _ |- _ => rewrite H in R
           end;
    (eexists; split; [eapply rows_read_symbol; eassumption|]);
    unfold lit_pixels; cbn [foldr]; lia.
Qed.

Lemma allocated_read_symbol m p :
  allocated m p = true -> exists s, read_symbol m p = Some s.
Proof.
  rewrite allocated_spec. intros H.
  destruct (H 0) as [b0 H0]; [lia|]. destruct (H 1) as [b1 H1]; [lia|].
  destruct (H 2) as [b2 H2]; [lia|]. destruct (H 3) as [b3 H3]; [lia|].
  destruct (H 4) as [b4 H4]; [lia|]. destruct (H 5) as [b5 H5]; [lia|].
  destruct (H 6) as [b6 H6]; [lia|]. destruct (H 7) as [b7 H7]; [lia|].
  exists [b0; b1; b2; b3; b4; b5; b6; b7]. apply rows_read_symbol; assumption.
Qed.

(** * Properties of the specification *)

Section Claims.
Variable int_bits : Z.
Hypothesis int_bits_min : 16 <= int_bits.

(** C1: [shiftSymbolVertical] is defined for every [int] shift.  The
    effective shift [((shift % 8) + 8) % 8] lies in [0,7], and on
    non-overlapping buffers every output row [r] receives the input row
    [(r - effective_shift + 8) % 8]. *)
Theorem shiftSymbolVertical_total m inp out shift :
  is_int int_bits shift ->
  allocated m inp = true -> allocated m out = true -> disjoint inp out ->
  let e := Z.rem (Z.rem shift 8 + 8) 8 in
  0 <= e <= 7 /\
  normalize int_bits shift = Some e /\
  exists m',
    shiftSymbolVertical int_bits inp out shift m = Some (tt, m') /\
    forall r, 0 <= r < 8 ->
      source_row int_bits r e = Some (Z.rem (r - e + 8) 8) /\
      is_Some (m' !! (out + r)) /\
      m' !! (out + r) = m !! (inp + Z.rem (r - e + 8) 8).
Proof.
  intros Hs Hin Hout Hdis e. subst e. rewrite rem_rem_8.
  assert (0 <= shift mod 8 < 8) as He by (apply Z.mod_pos_bound; lia).
  split; [lia|]. split; [now apply normalize_mod|].
  destruct (vertical_run _ int_bits_min m inp out shift) as (m' & Hrun & Hfill);
    try assumption.
  exists m'. split; [exact Hrun|]. intros r Hr.
  rewrite rem_row by assumption.
  split; [now apply source_row_mod|].
  destruct Hfill as [_ Hrows]. destruct (Hrows r Hr) as [Hsome Hrow].
  rewrite Hrow.
  replace ((r - shift mod 8) mod 8) with ((r - shift) mod 8)
    by (Z.to_euclidean_division_equations; lia).
  split; [exact Hsome | reflexivity].
Qed.

(** C2: for a shift in [0,7], [shiftSymbolHorizontal] rotates every row on
    its own: output row [r] is computed from input row [r] alone, and the
    pixel at column [c] of the input row is at column [(c + shift) mod 8]
    of the output row (column 0 is the lowest-order bit). *)
Theorem shiftSymbolHorizontal_rotates m inp out shift :
  0 <= shift <= 7 ->
  allocated m inp = true -> allocated m out = true -> disjoint inp out ->
  exists m',
    shiftSymbolHorizontal int_bits inp out shift m = Some (tt, m') /\
    forall r, 0 <= r < 8 ->
      exists b b',
        m !! (inp + r) = Some b /\
        m' !! (out + r) = Some b' /\
        rotate_row int_bits b shift = Some b' /\
        forall c, 0 <= c < 8 ->
          Z.testbit (byte.unsigned b') ((c + shift) mod 8) =
          Z.testbit (byte.unsigned b) c.
Proof.
  intros Hs Hin Hout Hdis.
  destruct (horizontal_run _ int_bits_min m inp out shift) as (m' & Hrun & Hfill);
    try assumption.
  exists m'. split; [exact Hrun|]. intros r Hr.
  rewrite allocated_spec in Hin. destruct (Hin r Hr) as [b Hb].
  exists b, (rotl8 b shift). split; [exact Hb|].
  split; [rewrite (fills_row _ _ _ _ _ Hfill Hr), Hb; reflexivity|].
  split; [now apply rotate_row_defined|].
  intros c Hc.
  rewrite rotl8_testbit by (try apply Z.mod_pos_bound; lia).
  replace (((c + shift) mod 8 - shift) mod 8) with c
    by (Z.to_euclidean_division_equations; lia).
  reflexivity.
Qed.

(** C3: for a shift in [0,7], [shiftSymbolHorizontal] has defined
    behaviour on every input: each shift of the promoted row is valid, in
    particular the right shift by [8 - 0 = 8], which yields 0, and the
    call returns. *)
Theorem shiftSymbolHorizontal_defined m inp out shift :
  0 <= shift <= 7 ->
  allocated m inp = true -> allocated m out = true -> disjoint inp out ->
  (forall row, is_Some (int_shl int_bits (promote row) shift) /\
               is_Some (int_shr int_bits (promote row) (8 - shift)) /\
               is_Some (rotate_row int_bits row shift)) /\
  (forall row, int_shr int_bits (promote row) (8 - 0) = Some 0) /\
  exists m', shiftSymbolHorizontal int_bits inp out shift m = Some (tt, m').
Proof.
  intros Hs Hin Hout Hdis. split; [|split].
  - intros row.
    pose proof (rotate_row_defined _ int_bits_min row shift Hs) as Hrot.
    split; [|split]; [| |rewrite Hrot; eauto].
    + unfold rotate_row in Hrot.
      destruct (int_shl int_bits (promote row) shift); [eauto | discriminate].
    + unfold rotate_row, int_sub in Hrot.
      rewrite (int_of_small _ int_bits_min) in Hrot by lia.
      destruct (int_shl int_bits (promote row) shift); [|discriminate].
      destruct (int_shr int_bits (promote row) (8 - shift)); [eauto | discriminate].
  - intros row. unfold int_shr.
    replace ((0 <=? 8 - 0) && (8 - 0 <? int_bits)) with true
      by (symmetry; rewrite andb_true_iff, Z.leb_le, Z.ltb_lt; lia).
    f_equal. apply Z.bits_inj'. intros c Hc.
    rewrite Z.shiftr_spec, Z.bits_0 by assumption.
    apply unsigned_testbit_high. lia.
  - destruct (horizontal_run _ int_bits_min m inp out shift) as (m' & Hrun & _);
      try assumption.
    now exists m'.
Qed.

(** C4: rotating by a shift in [1,7] into a second buffer and then by
    [8 - shift] into a third returns the original symbol, and a shift of
    0 copies the symbol unchanged. *)
Theorem shiftSymbolHorizontal_round_trip m inp tmp out shift :
  1 <= shift <= 7 ->
  allocated m inp = true -> allocated m tmp = true -> allocated m out = true ->
  disjoint inp tmp -> disjoint tmp out ->
  (exists m1 m2,
     shiftSymbolHorizontal int_bits inp tmp shift m = Some (tt, m1) /\
     shiftSymbolHorizontal int_bits tmp out (8 - shift) m1 = Some (tt, m2) /\
     read_symbol m2 out = read_symbol m inp) /\
  (exists m0,
     shiftSymbolHorizontal int_bits inp tmp 0 m = Some (tt, m0) /\
     read_symbol m0 tmp = read_symbol m inp) /\
  is_Some (read_symbol m inp).
Proof.
  intros Hs Hin Htmp Hout Hit Hto. split; [|split].
  - destruct (horizontal_run _ int_bits_min m inp tmp shift)
      as (m1 & Hrun1 & Hfill1); try assumption; [lia|].
    destruct (horizontal_run _ int_bits_min m1 tmp out (8 - shift))
      as (m2 & Hrun2 & Hfill2); eauto using fills_allocated; [lia|].
    exists m1, m2. split; [exact Hrun1|]. split; [exact Hrun2|].
    apply read_symbol_ext. intros r Hr.
    rewrite (fills_row _ _ _ _ _ Hfill2 Hr), (fills_row _ _ _ _ _ Hfill1 Hr).
    destruct (m !! (inp + r)) as [b|]; [|reflexivity].
    cbn. now rewrite rotl8_inverse.
  - destruct (horizontal_run _ int_bits_min m inp tmp 0)
      as (m0 & Hrun & Hfill); try assumption; [lia|].
    exists m0. split; [exact Hrun|].
    apply read_symbol_ext. intros r Hr.
    rewrite (fills_row _ _ _ _ _ Hfill Hr).
    destruct (m !! (inp + r)) as [b|]; [|reflexivity].
    cbn. now rewrite rotl8_0.
  - destruct (allocated_read_symbol m inp Hin) as [s Hsym]. eauto.
Qed.

(** C5: shifting vertically by [a] and then by [b] gives the same symbol
    as shifting once by [a + b]. *)
Theorem shiftSymbolVertical_compose m inp tmp out a b :
  is_int int_bits a -> is_int int_bits b -> is_int int_bits (a + b) ->
  allocated m inp = true -> allocated m tmp = true -> allocated m out = true ->
  disjoint inp tmp -> disjoint tmp out -> disjoint inp out ->
  exists m1 m2 m3,
    shiftSymbolVertical int_bits inp tmp a m = Some (tt, m1) /\
    shiftSymbolVertical int_bits tmp out b m1 = Some (tt, m2) /\
    shiftSymbolVertical int_bits inp out (a + b) m = Some (tt, m3) /\
    read_symbol m2 out = read_symbol m3 out /\
    is_Some (read_symbol m3 out).
Proof.
  intros Ha Hb Hab Hin Htmp Hout Hit Hto Hio.
  destruct (vertical_run _ int_bits_min m inp tmp a)
    as (m1 & Hrun1 & Hfill1); try assumption.
  destruct (vertical_run _ int_bits_min m1 tmp out b)
    as (m2 & Hrun2 & Hfill2); eauto using fills_allocated.
  destruct (vertical_run _ int_bits_min m inp out (a + b))
    as (m3 & Hrun3 & Hfill3); try assumption.
  exists m1, m2, m3. repeat (split; [eassumption|]). split.
  - apply read_symbol_ext. intros r Hr.
    rewrite (fills_row _ _ _ _ _ Hfill2 Hr), (fills_row _ _ _ _ _ Hfill3 Hr).
    rewrite (fills_row _ _ _ _ _ Hfill1) by (apply Z.mod_pos_bound; lia).
    do 2 f_equal. Z.to_euclidean_division_equations. lia.
  - destruct (allocated_read_symbol m3 out) as [s Hsym];
      eauto using fills_allocated.
Qed.

(** C6: the vertical shift is periodic: shifting by [s], by [s mod 8], by
    the remainder [s % 8] and by [s + 8 * k] all end in the same memory. *)
Theorem shiftSymbolVertical_periodic m inp out s k :
  is_int int_bits s -> is_int int_bits (s + 8 * k) ->
  allocated m inp = true -> allocated m out = true -> disjoint inp out ->
  exists m',
    shiftSymbolVertical int_bits inp out s m = Some (tt, m') /\
    shiftSymbolVertical int_bits inp out (s mod 8) m = Some (tt, m') /\
    shiftSymbolVertical int_bits inp out (Z.rem s 8) m = Some (tt, m') /\
    shiftSymbolVertical int_bits inp out (s + 8 * k) m = Some (tt, m').
Proof.
  intros Hs Hsk Hin Hout Hdis.
  destruct (vertical_run _ int_bits_min m inp out s)
    as (m' & Hrun & _); try assumption.
  exists m'. split; [exact Hrun|].
  rewrite <- Hrun. repeat split;
    apply (vertical_same_residue _ int_bits_min); try assumption;
    try (apply (is_int_small _ int_bits_min));
    Z.to_euclidean_division_equations; lia.
Qed.

(** C7: a vertical shift by 0 and a vertical shift by 8 both copy the
    symbol unchanged. *)
Theorem shiftSymbolVertical_identity m inp out :
  allocated m inp = true -> allocated m out = true -> disjoint inp out ->
  exists m0 m8,
    shiftSymbolVertical int_bits inp out 0 m = Some (tt, m0) /\
    shiftSymbolVertical int_bits inp out 8 m = Some (tt, m8) /\
    read_symbol m0 out = read_symbol m inp /\
    read_symbol m8 out = read_symbol m inp /\
    is_Some (read_symbol m inp).
Proof.
  intros Hin Hout Hdis.
  destruct (vertical_run _ int_bits_min m inp out 0)
    as (m0 & Hrun0 & Hfill0); try assumption;
    [apply (is_int_small _ int_bits_min); lia|].
  destruct (vertical_run _ int_bits_min m inp out 8)
    as (m8 & Hrun8 & Hfill8); try assumption;
    [apply (is_int_small _ int_bits_min); lia|].
  exists m0, m8. repeat (split; [eassumption|]).
  split; [|split].
  - apply read_symbol_ext. intros r Hr.
    rewrite (fills_row _ _ _ _ _ Hfill0 Hr).
    do 2 f_equal. Z.to_euclidean_division_equations. lia.
  - apply read_symbol_ext. intros r Hr.
    rewrite (fills_row _ _ _ _ _ Hfill8 Hr).
    do 2 f_equal. Z.to_euclidean_division_equations. lia.
  - destruct (allocated_read_symbol m inp Hin) as [s Hsym]. eauto.
Qed.

(** C8: on non-overlapping buffers a call of either function changes
    memory only inside the output buffer: every other address keeps its
    content, the input symbol is unchanged, nothing is allocated or
    freed, and the output depends on the input symbol and the shift
    alone. *)
Theorem shift_frame m inp out h v :
  0 <= h <= 7 -> is_int int_bits v ->
  allocated m inp = true -> allocated m out = true -> disjoint inp out ->
  exists mh mv,
    shiftSymbolHorizontal int_bits inp out h m = Some (tt, mh) /\
    shiftSymbolVertical int_bits inp out v m = Some (tt, mv) /\
    (forall a, ~ in_buffer out a -> mh !! a = m !! a /\ mv !! a = m !! a) /\
    read_symbol mh inp = read_symbol m inp /\
    read_symbol mv inp = read_symbol m inp /\
    dom mh = dom m /\ dom mv = dom m /\
    forall m2,
      allocated m2 out = true ->
      (forall r, 0 <= r < 8 -> m2 !! (inp + r) = m !! (inp + r)) ->
      exists mh2 mv2,
        shiftSymbolHorizontal int_bits inp out h m2 = Some (tt, mh2) /\
        shiftSymbolVertical int_bits inp out v m2 = Some (tt, mv2) /\
        read_symbol mh2 out = read_symbol mh out /\
        read_symbol mv2 out = read_symbol mv out.
Proof.
  intros Hh Hv Hin Hout Hdis.
  destruct (horizontal_run _ int_bits_min m inp out h)
    as (mh & Hrunh & Hfillh); try assumption.
  destruct (vertical_run _ int_bits_min m inp out v)
    as (mv & Hrunv & Hfillv); try assumption.
  exists mh, mv. repeat (split; [eassumption|]).
  split; [|split; [|split; [|split; [|split]]]].
  - intros a Ha. split; [apply Hfillh | apply Hfillv]; assumption.
  - apply read_symbol_ext. intros r Hr. eapply fills_other; eassumption.
  - apply read_symbol_ext. intros r Hr. eapply fills_other; eassumption.
  - eapply fills_dom; eassumption.
  - eapply fills_dom; eassumption.
  - intros m2 Hout2 Hsame.
    assert (allocated m2 inp = true) as Hin2
      by (rewrite (allocated_ext m2 inp m inp); assumption).
    destruct (horizontal_run _ int_bits_min m2 inp out h)
      as (mh2 & Hrunh2 & Hfillh2); try assumption.
    destruct (vertical_run _ int_bits_min m2 inp out v)
      as (mv2 & Hrunv2 & Hfillv2); try assumption.
    exists mh2, mv2. repeat (split; [eassumption|]).
    split; apply read_symbol_ext; intros r Hr.
    + rewrite (fills_row _ _ _ _ _ Hfillh2 Hr), (fills_row _ _ _ _ _ Hfillh Hr).
      now rewrite Hsame.
    + rewrite (fills_row _ _ _ _ _ Hfillv2 Hr), (fills_row _ _ _ _ _ Hfillv Hr).
      apply Hsame. apply Z.mod_pos_bound. lia.
Qed.

(** C9: both shifts keep the number of lit pixels: the popcounts of the
    eight output rows add up to those of the eight input rows. *)
Theorem shift_preserves_lit_pixels m inp out h v s :
  0 <= h <= 7 -> is_int int_bits v ->
  allocated m inp = true -> allocated m out = true -> disjoint inp out ->
  read_symbol m inp = Some s ->
  exists mh mv sh sv,
    shiftSymbolHorizontal int_bits inp out h m = Some (tt, mh) /\
    shiftSymbolVertical int_bits inp out v m = Some (tt, mv) /\
    read_symbol mh out = Some sh /\ lit_pixels sh = lit_pixels s /\
    read_symbol mv out = Some sv /\ lit_pixels sv = lit_pixels s.
Proof.
  intros Hh Hv Hin Hout Hdis Hsym.
  destruct (horizontal_run _ int_bits_min m inp out h)
    as (mh & Hrunh & Hfillh); try assumption.
  destruct (vertical_run _ int_bits_min m inp out v)
    as (mv & Hrunv & Hfillv); try assumption.
  destruct (reindexed_lit_pixels m mv inp out (v mod 8) s)
    as (sv & Hsv & Hpv); try assumption.
  { apply Z.mod_pos_bound. lia. }
  { intros r Hr. rewrite (fills_row _ _ _ _ _ Hfillv Hr).
    do 2 f_equal. Z.to_euclidean_division_equations. lia. }
  destruct (read_symbol_rows _ _ _ Hsym)
    as (b0 & b1 & b2 & b3 & b4 & b5 & b6 & b7 & -> & H0 & H1 & H2 & H3 & H4 & H5 & H6 & H7).
  exists mh, mv,
    (map (fun b => rotl8 b h) [b0; b1; b2; b3; b4; b5; b6; b7]), sv.
  repeat (split; [eassumption|]).
  split; [|split; [|split; assumption]].
  - apply rows_read_symbol;
      rewrite (fills_row _ _ _ _ _ Hfillh) by lia;
      rewrite ?H0, ?H1, ?H2, ?H3, ?H4, ?H5, ?H6, ?H7; reflexivity.
  - unfold lit_pixels. cbn [foldr map].
    now rewrite !popcount_rotl8 by assumption.
Qed.

(** C10: the two shifts commute: shifting vertically by [v] and then
    horizontally by [h] gives the same symbol as shifting horizontally by
    [h] and then vertically by [v]. *)
Theorem shifts_commute m inp tmp out h v :
  0 <= h <= 7 -> is_int int_bits v ->
  allocated m inp = true -> allocated m tmp = true -> allocated m out = true ->
  disjoint inp tmp -> disjoint tmp out ->
  exists m1 m2 m3 m4,
    shiftSymbolVertical int_bits inp tmp v m = Some (tt, m1) /\
    shiftSymbolHorizontal int_bits tmp out h m1 = Some (tt, m2) /\
    shiftSymbolHorizontal int_bits inp tmp h m = Some (tt, m3) /\
    shiftSymbolVertical int_bits tmp out v m3 = Some (tt, m4) /\
    read_symbol m2 out = read_symbol m4 out /\
    is_Some (read_symbol m2 out).
Proof.
  intros Hh Hv Hin Htmp Hout Hit Hto.
  destruct (vertical_run _ int_bits_min m inp tmp v)
    as (m1 & Hrun1 & Hfill1); try assumption.
  destruct (horizontal_run _ int_bits_min m1 tmp out h)
    as (m2 & Hrun2 & Hfill2); eauto using fills_allocated.
  destruct (horizontal_run _ int_bits_min m inp tmp h)
    as (m3 & Hrun3 & Hfill3); try assumption.
  destruct (vertical_run _ int_bits_min m3 tmp out v)
    as (m4 & Hrun4 & Hfill4); eauto using fills_allocated.
  exists m1, m2, m3, m4. repeat (split; [eassumption|]). split.
  - apply read_symbol_ext. intros r Hr.
    rewrite (fills_row _ _ _ _ _ Hfill2 Hr), (fills_row _ _ _ _ _ Hfill1 Hr).
    rewrite (fills_row _ _ _ _ _ Hfill4 Hr).
    now rewrite (fills_row _ _ _ _ _ Hfill3) by (apply Z.mod_pos_bound; lia).
  - destruct (allocated_read_symbol m2 out) as [s Hsym];
      eauto using fills_allocated.
Qed.
End Claims.

(** * The properties on a 16-bit board

    Each theorem applied to a concrete memory: the symbol [demo_symbol] at
    address 0, followed by two zeroed buffers at addresses 8 and 16. *)

Lemma shiftSymbolVertical_total_witness :
  let e := Z.rem (Z.rem (-9) 8 + 8) 8 in
  0 <= e <= 7 /\
  normalize 16 (-9) = Some e /\
  exists m',
    shiftSymbolVertical 16 0 8 (-9) (demo_mem demo_symbol) = Some (tt, m') /\
    forall r, 0 <= r < 8 ->
      source_row 16 r e = Some (Z.rem (r - e + 8) 8) /\
      is_Some (m' !! (8 + r)) /\
      m' !! (8 + r) = demo_mem demo_symbol !! (0 + Z.rem (r - e + 8) 8).
Proof.
  apply (shiftSymbolVertical_total 16).
  - lia.
  - unfold is_int, INT_MIN, INT_MAX. simpl. lia.
  - vm_compute. reflexivity.
  - vm_compute. reflexivity.
  - unfold disjoint. lia.
Defined.

Lemma shiftSymbolHorizontal_rotates_witness :
  exists m',
    shiftSymbolHorizontal 16 0 8 3 (demo_mem demo_symbol) = Some (tt, m') /\
    forall r, 0 <= r < 8 ->
      exists b b',
        demo_mem demo_symbol !! (0 + r) = Some b /\
        m' !! (8 + r) = Some b' /\
        rotate_row 16 b 3 = Some b' /\
        forall c, 0 <= c < 8 ->
          Z.testbit (byte.unsigned b') ((c + 3) mod 8) =
          Z.testbit (byte.unsigned b) c.
Proof.
  apply (shiftSymbolHorizontal_rotates 16).
  - lia.
  - lia.
  - vm_compute. reflexivity.
  - vm_compute. reflexivity.
  - unfold disjoint. lia.
Defined.

Lemma shiftSymbolHorizontal_defined_witness :
  (forall row, is_Some (int_shl 16 (promote row) 0) /\
               is_Some (int_shr 16 (promote row) (8 - 0)) /\
               is_Some (rotate_row 16 row 0)) /\
  (forall row, int_shr 16 (promote row) (8 - 0) = Some 0) /\
  exists m', shiftSymbolHorizontal 16 0 8 0 (demo_mem demo_symbol) = Some (tt, m').
Proof.
  apply (shiftSymbolHorizontal_defined 16).
  - lia.
  - lia.
  - vm_compute. reflexivity.
  - vm_compute. reflexivity.
  - unfold disjoint. lia.
Defined.

Lemma shiftSymbolHorizontal_round_trip_witness :
  (exists m1 m2,
     shiftSymbolHorizontal 16 0 8 3 (demo_mem demo_symbol) = Some (tt, m1) /\
     shiftSymbolHorizontal 16 8 16 (8 - 3) m1 = Some (tt, m2) /\
     read_symbol m2 16 = read_symbol (demo_mem demo_symbol) 0) /\
  (exists m0,
     shiftSymbolHorizontal 16 0 8 0 (demo_mem demo_symbol) = Some (tt, m0) /\
     read_symbol m0 8 = read_symbol (demo_mem demo_symbol) 0) /\
  is_Some (read_symbol (demo_mem demo_symbol) 0).
Proof.
  apply (shiftSymbolHorizontal_round_trip 16).
  - lia.
  - lia.
  - vm_compute. reflexivity.
  - vm_compute. reflexivity.
  - vm_compute. reflexivity.
  - unfold disjoint. lia.
  - unfold disjoint. lia.
Defined.

Lemma shiftSymbolVertical_compose_witness :
  exists m1 m2 m3,
    shiftSymbolVertical 16 0 8 5 (demo_mem demo_symbol) = Some (tt, m1) /\
    shiftSymbolVertical 16 8 16 (-11) m1 = Some (tt, m2) /\
    shiftSymbolVertical 16 0 16 (5 + -11) (demo_mem demo_symbol) = Some (tt, m3) /\
    read_symbol m2 16 = read_symbol m3 16 /\
    is_Some (read_symbol m3 16).
Proof.
  apply (shiftSymbolVertical_compose 16).
  - lia.
  - unfold is_int, INT_MIN, INT_MAX. simpl. lia.
  - unfold is_int, INT_MIN, INT_MAX. simpl. lia.
  - unfold is_int, INT_MIN, INT_MAX. simpl. lia.
  - vm_compute. reflexivity.
  - vm_compute. reflexivity.
  - vm_compute. reflexivity.
  - unfold disjoint. lia.
  - unfold disjoint. lia.
  - unfold disjoint. lia.
Defined.

Lemma shiftSymbolVertical_periodic_witness :
  exists m',
    shiftSymbolVertical 16 0 8 (-13) (demo_mem demo_symbol) = Some (tt, m') /\
    shiftSymbolVertical 16 0 8 ((-13) mod 8) (demo_mem demo_symbol) = Some (tt, m') /\
    shiftSymbolVertical 16 0 8 (Z.rem (-13) 8) (demo_mem demo_symbol) = Some (tt, m') /\
    shiftSymbolVertical 16 0 8 (-13 + 8 * 4000) (demo_mem demo_symbol) = Some (tt, m').
Proof.
  apply (shiftSymbolVertical_periodic 16).
  - lia.
  - unfold is_int, INT_MIN, INT_MAX. simpl. lia.
  - unfold is_int, INT_MIN, INT_MAX. simpl. lia.
  - vm_compute. reflexivity.
  - vm_compute. reflexivity.
  - unfold disjoint. lia.
Defined.

Lemma shiftSymbolVertical_identity_witness :
  exists m0 m8,
    shiftSymbolVertical 16 0 8 0 (demo_mem demo_symbol) = Some (tt, m0) /\
    shiftSymbolVertical 16 0 8 8 (demo_mem demo_symbol) = Some (tt, m8) /\
    read_symbol m0 8 = read_symbol (demo_mem demo_symbol) 0 /\
    read_symbol m8 8 = read_symbol (demo_mem demo_symbol) 0 /\
    is_Some (read_symbol (demo_mem demo_symbol) 0).
Proof.
  apply (shiftSymbolVertical_identity 16).
  - lia.
  - vm_compute. reflexivity.
  - vm_compute. reflexivity.
  - unfold disjoint. lia.
Defined.

Lemma shift_frame_witness :
  exists mh mv,
    shiftSymbolHorizontal 16 0 8 7 (demo_mem demo_symbol) = Some (tt, mh) /\
    shiftSymbolVertical 16 0 8 (-32768) (demo_mem demo_symbol) = Some (tt, mv) /\
    (forall a, ~ in_buffer 8 a ->
       mh !! a = demo_mem demo_symbol !! a /\ mv !! a = demo_mem demo_symbol !! a) /\
    read_symbol mh 0 = read_symbol (demo_mem demo_symbol) 0 /\
    read_symbol mv 0 = read_symbol (demo_mem demo_symbol) 0 /\
    dom mh = dom (demo_mem demo_symbol) /\ dom mv = dom (demo_mem demo_symbol) /\
    forall m2,
      allocated m2 8 = true ->
      (forall r, 0 <= r < 8 -> m2 !! (0 + r) = demo_mem demo_symbol !! (0 + r)) ->
      exists mh2 mv2,
        shiftSymbolHorizontal 16 0 8 7 m2 = Some (tt, mh2) /\
        shiftSymbolVertical 16 0 8 (-32768) m2 = Some (tt, mv2) /\
        read_symbol mh2 8 = read_symbol mh 8 /\
        read_symbol mv2 8 = read_symbol mv 8.
Proof.
  apply (shift_frame 16).
  - lia.
  - lia.
  - unfold is_int, INT_MIN, INT_MAX. simpl. lia.
  - vm_compute. reflexivity.
  - vm_compute. reflexivity.
  - unfold disjoint. lia.
Defined.

Lemma shift_preserves_lit_pixels_witness :
  exists mh mv sh sv,
    shiftSymbolHorizontal 16 0 8 5 (demo_mem demo_symbol) = Some (tt, mh) /\
    shiftSymbolVertical 16 0 8 32767 (demo_mem demo_symbol) = Some (tt, mv) /\
    read_symbol mh 8 = Some sh /\ lit_pixels sh = lit_pixels demo_symbol /\
    read_symbol mv 8 = Some sv /\ lit_pixels sv = lit_pixels demo_symbol.
Proof.
  apply (shift_preserves_lit_pixels 16).
  - lia.
  - lia.
  - unfold is_int, INT_MIN, INT_MAX. simpl. lia.
  - vm_compute. reflexivity.
  - vm_compute. reflexivity.
  - unfold disjoint. lia.
  - vm_compute. reflexivity.
Defined.

Lemma shifts_commute_witness :
  exists m1 m2 m3 m4,
    shiftSymbolVertical 16 0 8 (-3) (demo_mem demo_symbol) = Some (tt, m1) /\
    shiftSymbolHorizontal 16 8 16 2 m1 = Some (tt, m2) /\
    shiftSymbolHorizontal 16 0 8 2 (demo_mem demo_symbol) = Some (tt, m3) /\
    shiftSymbolVertical 16 8 16 (-3) m3 = Some (tt, m4) /\
    read_symbol m2 16 = read_symbol m4 16 /\
    is_Some (read_symbol m2 16).
Proof.
  apply (shifts_commute 16).
  - lia.
  - lia.
  - unfold is_int, INT_MIN, INT_MAX. simpl. lia.
  - vm_compute. reflexivity.
  - vm_compute. reflexivity.
  - vm_compute. reflexivity.
  - unfold disjoint. lia.
  - unfold disjoint. lia.
Defined.

(** * The scenarios of the specification, run on a 16-bit board *)

Example scenario_horizontal_1 :
  run_symbol (shiftSymbolHorizontal 16 0 8 1) pixel_symbol 8 =
  Some (Byte.x02 :: replicate 7 Byte.x00).
Proof. vm_compute. reflexivity. Qed.

Example scenario_horizontal_7 :
  run_symbol (shiftSymbolHorizontal 16 0 8 7) pixel_symbol 8 =
  Some (Byte.x80 :: replicate 7 Byte.x00).
Proof. vm_compute. reflexivity. Qed.

Example scenario_vertical_1 :
  run_symbol (shiftSymbolVertical 16 0 8 1) bar_symbol 8 =
  Some (Byte.x00 :: Byte.xff :: replicate 6 Byte.x00).
Proof. vm_compute. reflexivity. Qed.

Example scenario_vertical_minus_1 :
  run_symbol (shiftSymbolVertical 16 0 8 (-1)) bar_symbol 8 =
  Some (replicate 7 Byte.x00 ++ [Byte.xff]).
Proof. vm_compute. reflexivity. Qed.

(** Outside the claims' preconditions the model does tell the cases apart:
    a horizontal shift of 8 overflows a 16-bit [int], and overlapping
    buffers make the vertical shift read rows it has already written. *)
Example horizontal_8_undefined :
  run_symbol (shiftSymbolHorizontal 16 0 8 8) demo_symbol 8 = None.
Proof. vm_compute. reflexivity. Qed.

Example vertical_in_place :
  run_symbol (shiftSymbolVertical 16 0 0 1) demo_symbol 0 =
  Some (replicate 8 Byte.xa5).
Proof. vm_compute. reflexivity. Qed.

(** * Further properties of the two functions *)

(** ** Rotations of a row *)

Lemma rotl8_compose b s t :
  0 <= s <= 7 -> 0 <= t <= 7 -> rotl8 (rotl8 b s) t = rotl8 b ((s + t) mod 8).
Proof.
  intros Hs Ht. apply byte_eq_bits. intros c Hc.
  rewrite !rotl8_testbit
    by (try apply Z.mod_pos_bound; Z.to_euclidean_division_equations; lia).
  f_equal. Z.to_euclidean_division_equations. lia.
Qed.

Lemma rotate_row_out_of_range int_bits b shift :
  shift < 0 \/ 8 < shift -> rotate_row int_bits b shift = None.
Proof.
  intros [Hneg | Hbig]; unfold rotate_row.
  - unfold int_shl.
    replace (0 <=? shift) with false by (symmetry; apply Z.leb_gt; lia).
    reflexivity.
  - destruct (int_shl int_bits (promote b) shift); [|reflexivity].
    unfold int_sub, int_of.
    destruct ((INT_MIN int_bits <=? 8 - shift) && (8 - shift <=? INT_MAX int_bits));
      [|reflexivity].
    unfold int_shr.
    replace (0 <=? 8 - shift) with false by (symmetry; apply Z.leb_gt; lia).
    reflexivity.
Qed.

Lemma rotate_row_8 int_bits b : 17 <= int_bits -> rotate_row int_bits b 8 = Some b.
Proof.
  intros Hbits. pose proof (byte.unsigned_range b) as Hb.
  change (2 ^ 8) with 256 in Hb.
  assert (2 ^ 16 <= 2 ^ (int_bits - 1)) as Hpow by (apply Z.pow_le_mono_r; lia).
  change (2 ^ 16) with 65536 in Hpow.
  assert (forall z, -65536 <= z <= 65535 -> int_of int_bits z = Some z) as Hof.
  { intros z Hz. unfold int_of, INT_MIN, INT_MAX.
    replace ((- 2 ^ (int_bits - 1) <=? z) && (z <=? 2 ^ (int_bits - 1) - 1))
      with true by (symmetry; rewrite andb_true_iff, !Z.leb_le; lia).
    reflexivity. }
  unfold rotate_row, int_shl, int_sub, int_shr, promote.
  replace ((0 <=? 8) && (8 <? int_bits) && (0 <=? byte.unsigned b)) with true
    by (symmetry; rewrite !andb_true_iff, !Z.leb_le, Z.ltb_lt; lia).
  change (2 ^ 8) with 256. rewrite Hof by lia. rewrite Hof by lia.
  replace ((0 <=? 8 - 8) && (8 - 8 <? int_bits)) with true
    by (symmetry; rewrite andb_true_iff, Z.leb_le, Z.ltb_lt; lia).
  f_equal. apply byte_eq_bits. intros c Hc.
  unfold to_uint8, int_or. rewrite byte.unsigned_of_Z. unfold byte.wrap.
  rewrite Z.mod_pow2_bits_low by lia.
  change 256 with (2 ^ 8). rewrite Z.lor_spec, <- Z.shiftl_mul_pow2 by lia.
  rewrite Z.shiftl_spec by lia. rewrite (Z.testbit_neg_r _ (c - 8)) by lia.
  change (8 - 8) with 0. now rewrite Z.shiftr_0_r.
Qed.

Section Layouts.
Variable int_bits : Z.
Hypothesis int_bits_min : 16 <= int_bits.

(** The horizontal loop reads row [r] before it writes row [r], so it also
    works when the output buffer starts at or before the input buffer. *)
Lemma horizontal_run_layout m inp out shift (g : byte -> byte) :
  (forall b, rotate_row int_bits b shift = Some (g b)) ->
  allocated m inp = true -> allocated m out = true ->
  out <= inp \/ inp + 8 <= out ->
  exists m', shiftSymbolHorizontal int_bits inp out shift m = Some (tt, m') /\
             fills m m' out (fun r => g <$> m !! (inp + r)).
Proof.
  intros Hg Hin Hout Hlay. rewrite allocated_spec in Hin, Hout.
  destruct (for_upto_inv int_bits int_bits_min
    (fun i mi => (forall a, ~ (out <= a < out + i) -> mi !! a = m !! a) /\
                 (forall j, 0 <= j < i -> mi !! (out + j) = g <$> m !! (inp + j)))
    (fun r => load (inp + r) ≫= fun row =>
              ub (rotate_row int_bits row shift) ≫= fun v => store (out + r) v)
    8 0 m) as (m' & Hrun & Hframe & Hrows); try lia.
  - split; [reflexivity | intros; lia].
  - intros i mi Hi [Hframe Hrows].
    destruct (Hin i) as [b Hb]; [lia|]. destruct (Hout i) as [old Hold]; [lia|].
    assert (mi !! (inp + i) = Some b) as Hload by (rewrite Hframe by lia; exact Hb).
    assert (mi !! (out + i) = Some old) as Hdest by (rewrite Hframe by lia; exact Hold).
    exists (<[out + i := g b]> mi). split.
    + erewrite bind_Some by (unfold load; rewrite Hload; reflexivity).
      erewrite bind_Some by (rewrite Hg; reflexivity).
      unfold store. now rewrite Hdest.
    + split.
      * intros a Ha. rewrite lookup_insert_ne by lia. apply Hframe. lia.
      * intros j Hj. destruct (decide (j = i)) as [->|Hne].
        -- rewrite lookup_insert_eq, Hb. reflexivity.
        -- rewrite lookup_insert_ne by lia. apply Hrows. lia.
  - exists m'. split; [exact Hrun|]. split.
    + intros a Ha. apply Hframe. unfold in_buffer in Ha. simpl. lia.
    + intros r Hr. rewrite Hrows by (simpl; lia).
      destruct (Hin r Hr) as [b ->]. split; [eexists|]; reflexivity.
Qed.

(** X1: the horizontal shift tolerates an output buffer that starts at or
    before the input buffer, in particular the same buffer: every output
    row is the rotation of the row the input held before the call. *)
Theorem shiftSymbolHorizontal_backward_overlap m inp out shift :
  0 <= shift <= 7 ->
  allocated m inp = true -> allocated m out = true -> out <= inp ->
  exists m',
    shiftSymbolHorizontal int_bits inp out shift m = Some (tt, m') /\
    (forall a, ~ in_buffer out a -> m' !! a = m !! a) /\
    forall r, 0 <= r < 8 ->
      exists b b',
        m !! (inp + r) = Some b /\
        m' !! (out + r) = Some b' /\
        rotate_row int_bits b shift = Some b' /\
        forall c, 0 <= c < 8 ->
          Z.testbit (byte.unsigned b') ((c + shift) mod 8) =
          Z.testbit (byte.unsigned b) c.
Proof.
  intros Hs Hin Hout Hle.
  destruct (horizontal_run_layout m inp out shift (fun b => rotl8 b shift))
    as (m' & Hrun & Hfill); auto.
  { intros b. now apply rotate_row_defined. }
  exists m'. split; [exact Hrun|]. split; [apply Hfill|]. intros r Hr.
  rewrite allocated_spec in Hin. destruct (Hin r Hr) as [b Hb].
  exists b, (rotl8 b shift). split; [exact Hb|].
  split; [rewrite (fills_row _ _ _ _ _ Hfill Hr), Hb; reflexivity|].
  split; [now apply rotate_row_defined|].
  intros c Hc.
  rewrite rotl8_testbit by (try apply Z.mod_pos_bound; lia).
  f_equal. Z.to_euclidean_division_equations. lia.
Qed.

(** X2: two horizontal shifts in a row, by [a] and by [b] in [0,7], give
    the same symbol as one horizontal shift by [(a + b) mod 8]. *)
Theorem shiftSymbolHorizontal_compose m inp tmp out a b :
  0 <= a <= 7 -> 0 <= b <= 7 ->
  allocated m inp = true -> allocated m tmp = true -> allocated m out = true ->
  disjoint inp tmp -> disjoint tmp out -> disjoint inp out ->
  exists m1 m2 m3,
    shiftSymbolHorizontal int_bits inp tmp a m = Some (tt, m1) /\
    shiftSymbolHorizontal int_bits tmp out b m1 = Some (tt, m2) /\
    shiftSymbolHorizontal int_bits inp out ((a + b) mod 8) m = Some (tt, m3) /\
    read_symbol m2 out = read_symbol m3 out /\
    is_Some (read_symbol m3 out).
Proof.
  intros Ha Hb Hin Htmp Hout Hit Hto Hio.
  destruct (horizontal_run _ int_bits_min m inp tmp a)
    as (m1 & Hrun1 & Hfill1); try assumption.
  destruct (horizontal_run _ int_bits_min m1 tmp out b)
    as (m2 & Hrun2 & Hfill2); eauto using fills_allocated.
  destruct (horizontal_run _ int_bits_min m inp out ((a + b) mod 8))
    as (m3 & Hrun3 & Hfill3); try assumption.
  { Z.to_euclidean_division_equations. lia. }
  exists m1, m2, m3. repeat (split; [eassumption|]). split.
  - apply read_symbol_ext. intros r Hr.
    rewrite (fills_row _ _ _ _ _ Hfill2 Hr), (fills_row _ _ _ _ _ Hfill3 Hr).
    rewrite (fills_row _ _ _ _ _ Hfill1 Hr).
    destruct (m !! (inp + r)) as [row|]; [|reflexivity].
    cbn. now rewrite rotl8_compose.
  - destruct (allocated_read_symbol m3 out) as [s Hsym];
      eauto using fills_allocated.
Qed.
End Layouts.

(** X3: a horizontal shift below 0 or above 8 has no defined behaviour, on
    any width of [int] and any memory: the shift count [shift] or
    [8 - shift] is negative. *)
Theorem shiftSymbolHorizontal_out_of_range int_bits m inp out shift :
  shift < 0 \/ 8 < shift ->
  (forall row, rotate_row int_bits row shift = None) /\
  shiftSymbolHorizontal int_bits inp out shift m = None.
Proof.
  intros Hshift. split; [intros row; now apply rotate_row_out_of_range|].
  unfold shiftSymbolHorizontal, for_range.
  change (Z.to_nat (8 - 0)) with 8%nat. cbn [for_upto].
  unfold mbind at 1, M_bind at 1. unfold mbind at 1, M_bind at 1. unfold load.
  destruct (m !! (inp + 0)) as [row|]; [|reflexivity].
  unfold mbind at 1, M_bind at 1.
  now rewrite rotate_row_out_of_range.
Qed.

(** X4: where [int] has 17 bits or more, a horizontal shift by 8 is
    defined and copies the symbol unchanged. *)
Theorem shiftSymbolHorizontal_8_copies int_bits m inp out :
  17 <= int_bits ->
  allocated m inp = true -> allocated m out = true -> disjoint inp out ->
  exists m',
    shiftSymbolHorizontal int_bits inp out 8 m = Some (tt, m') /\
    (forall a, ~ in_buffer out a -> m' !! a = m !! a) /\
    read_symbol m' out = read_symbol m inp /\
    is_Some (read_symbol m inp).
Proof.
  intros Hbits Hin Hout Hdis.
  destruct (horizontal_run_layout int_bits ltac:(lia) m inp out 8 (fun b => b))
    as (m' & Hrun & Hfill); auto.
  { intros b. now apply rotate_row_8. }
  { unfold disjoint in Hdis. lia. }
  exists m'. split; [exact Hrun|]. split; [apply Hfill|]. split.
  - apply read_symbol_ext. intros r Hr.
    rewrite (fills_row _ _ _ _ _ Hfill Hr).
    now destruct (m !! (inp + r)).
  - destruct (allocated_read_symbol m inp Hin) as [s Hsym]. eauto.
Qed.

Section VerticalLayouts.
Variable int_bits : Z.
Hypothesis int_bits_min : 16 <= int_bits.

(** X5: on lists of rows, the vertical shift is a rotation: with
    [k = (- shift) mod 8], the output is the input without its first [k] rows
    followed by those [k] rows, hence a permutation of the input rows. *)
Theorem shiftSymbolVertical_rotates_list m inp out shift s :
  is_int int_bits shift ->
  allocated m inp = true -> allocated m out = true -> disjoint inp out ->
  read_symbol m inp = Some s ->
  let k := Z.to_nat ((- shift) mod 8) in
  exists m',
    shiftSymbolVertical int_bits inp out shift m = Some (tt, m') /\
    read_symbol m' out = Some (drop k s ++ take k s) /\
    drop k s ++ take k s ≡ₚ s.
Proof.
  intros Hs Hin Hout Hdis Hsym k.
  destruct (vertical_run _ int_bits_min m inp out shift)
    as (m' & Hrun & Hfill); try assumption.
  exists m'. split; [exact Hrun|]. split.
  - assert (forall r, 0 <= r < 8 ->
              m' !! (out + r) = m !! (inp + (r - shift mod 8) mod 8)) as Hrow.
    { intros r Hr. rewrite (fills_row _ _ _ _ _ Hfill Hr).
      do 2 f_equal. Z.to_euclidean_division_equations. lia. }
    assert ((- shift) mod 8 = (8 - shift mod 8) mod 8) as Hk
      by (Z.to_euclidean_division_equations; lia).
    subst k. rewrite Hk.
    assert (0 <= shift mod 8 < 8) as He by (apply Z.mod_pos_bound; lia).
    clear Hk Hfill Hrun Hs. revert He Hrow. generalize (shift mod 8) as e.
    intros e He Hrow.
    destruct (read_symbol_rows _ _ _ Hsym)
      as (b0 & b1 & b2 & b3 & b4 & b5 & b6 & b7 & -> & H0 & H1 & H2 & H3 & H4 & H5 & H6 & H7).
    pose proof (Hrow 0 ltac:(lia)) as R0. pose proof (Hrow 1 ltac:(lia)) as R1.
    pose proof (Hrow 2 ltac:(lia)) as R2. pose proof (Hrow 3 ltac:(lia)) as R3.
    pose proof (Hrow 4 ltac:(lia)) as R4. pose proof (Hrow 5 ltac:(lia)) as R5.
    pose proof (Hrow 6 ltac:(lia)) as R6. pose proof (Hrow 7 ltac:(lia)) as R7.
    clear Hrow Hsym.
    each_case He; norm_mod8;
      repeat match goal with
             | R : _ = m !! ?a, H : m !! ?a = Some _ |- _ => rewrite H in R
             end;
      match goal with
      | |- context [Z.to_nat ?x] =>
          let v := eval vm_compute in (Z.to_nat x) in change (Z.to_nat x) with v
      end;
      cbn [skipn firstn app]; apply rows_read_symbol; assumption.
  - rewrite Permutation_app_comm. now rewrite take_drop.
Qed.

(** X6: called in place ([out = in]) the vertical shift is defined but is
    a shift only when [shift mod 8 = 0], where it changes nothing.  For an
    effective shift [e] in [1,7] the rows written first are read again later,
    and every row [r] ends as the old row [8 - e + r mod e]: the last [e]
    rows, repeated. *)
Theorem shiftSymbolVertical_in_place m p shift :
  is_int int_bits shift -> allocated m p = true ->
  exists m',
    shiftSymbolVertical int_bits p p shift m = Some (tt, m') /\
    (forall a, ~ in_buffer p a -> m' !! a = m !! a) /\
    forall r, 0 <= r < 8 ->
      m' !! (p + r) =
      m !! (p + (if shift mod 8 =? 0 then r
                 else 8 - shift mod 8 + r mod (shift mod 8))).
Proof.
  intros Hs Hp. rewrite allocated_spec in Hp.
  assert (0 <= shift mod 8 < 8) as He by (apply Z.mod_pos_bound; lia).
  revert He. generalize (normalize_mod _ int_bits_min shift Hs).
  generalize (shift mod 8) as e. intros e Hnorm He.
  set (src := fun r => if e =? 0 then r else 8 - e + r mod e).
  assert (forall r, 0 <= r < 8 -> 0 <= src r < 8) as Hsrc.
  { intros r Hr. unfold src. destruct (Z.eqb_spec e 0); [lia|].
    pose proof (Z.mod_pos_bound r e ltac:(lia)). lia. }
  destruct (for_upto_inv int_bits int_bits_min
    (fun i mi => (forall a, ~ (p <= a < p + i) -> mi !! a = m !! a) /\
                 (forall j, 0 <= j < i -> mi !! (p + j) = m !! (p + src j)))
    (fun r => ub (source_row int_bits r e) ≫= fun i =>
              load (p + i) ≫= fun v => store (p + r) v)
    8 0 m) as (m' & Hrun & Hframe & Hrows); try lia.
  - split; [reflexivity | intros; lia].
  - intros i mi Hi [Hframe Hrows].
    assert (0 <= (i - e) mod 8 < 8) as Hk by (apply Z.mod_pos_bound; lia).
    assert (mi !! (p + (i - e) mod 8) = m !! (p + src i)) as Hload.
    { unfold src. destruct (Z.eqb_spec e 0) as [->|Hne].
      - replace ((i - 0) mod 8) with i
          by (Z.to_euclidean_division_equations; lia).
        apply Hframe. lia.
      - destruct (Z.lt_ge_cases i e).
        + replace ((i - e) mod 8) with (i - e + 8)
            by (Z.to_euclidean_division_equations; lia).
          rewrite (Z.mod_small i e) by lia.
          rewrite Hframe by lia. f_equal. lia.
        + replace ((i - e) mod 8) with (i - e)
            by (Z.to_euclidean_division_equations; lia).
          rewrite Hrows by lia. unfold src.
          destruct (Z.eqb_spec e 0); [lia|].
          replace (i - e) with (i + (-1) * e) by lia.
          now rewrite Z.mod_add by lia. }
    destruct (Hp (src i)) as [b Hb]; [apply Hsrc; lia|].
    destruct (Hp i) as [old Hold]; [lia|].
    exists (<[p + i := b]> mi). split.
    + erewrite bind_Some
        by (rewrite (source_row_mod _ int_bits_min) by lia; reflexivity).
      erewrite bind_Some by (unfold load; rewrite Hload, Hb; reflexivity).
      unfold store. rewrite Hframe by lia. now rewrite Hold.
    + split.
      * intros a Ha. rewrite lookup_insert_ne by lia. apply Hframe. lia.
      * intros j Hj. destruct (decide (j = i)) as [->|Hne].
        -- now rewrite lookup_insert_eq, Hb.
        -- rewrite lookup_insert_ne by lia. apply Hrows. lia.
  - exists m'. split; [|split].
    + unfold shiftSymbolVertical.
      erewrite bind_Some by (rewrite Hnorm; reflexivity). exact Hrun.
    + intros a Ha. apply Hframe. unfold in_buffer in Ha. simpl. lia.
    + intros r Hr. apply Hrows. simpl. lia.
Qed.
End VerticalLayouts.

(** ** What a call that returns has accessed *)

Lemma int_of_Some int_bits z z' : int_of int_bits z = Some z' -> z' = z.
Proof.
  unfold int_of.
  destruct ((INT_MIN int_bits <=? z) && (z <=? INT_MAX int_bits)); congruence.
Qed.

Lemma int_rem_Some int_bits a b c : int_rem int_bits a b = Some c -> c = Z.rem a b.
Proof.
  unfold int_rem. destruct (b =? 0); [discriminate|].
  destruct (int_of int_bits (Z.quot a b)); congruence.
Qed.

(** Every round of a loop that returns has returned, in a memory with the
    allocation of the initial one. *)
Lemma for_upto_success int_bits (P : Z -> gset Z -> Prop) body n r m m' :
  (forall i mi mi', body i mi = Some (tt, mi') ->
     dom mi' = dom mi /\ P i (dom mi)) ->
  for_upto int_bits n r body m = Some (tt, m') ->
  dom m' = dom m /\ forall i, r <= i < r + Z.of_nat n -> P i (dom m).
Proof.
  intros Hbody. revert r m. induction n as [|n IH]; intros r m Hrun.
  - injection Hrun as <-. split; [reflexivity | intros; lia].
  - cbn [for_upto] in Hrun. unfold mbind at 1, M_bind at 1 in Hrun.
    destruct (body r m) as [[[] m1]|] eqn:Hb; [|discriminate].
    destruct (Hbody _ _ _ Hb) as [Hdom HP].
    unfold mbind at 1, M_bind at 1, ub at 1, int_add in Hrun.
    destruct (int_of int_bits (r + 1)) as [r'|] eqn:Hr'; [|discriminate].
    apply int_of_Some in Hr'. subst r'.
    destruct (IH _ _ Hrun) as [Hdom' HP'].
    split; [congruence|]. intros i Hi.
    destruct (decide (i = r)) as [->|Hne]; [exact HP|].
    rewrite <- Hdom. apply HP'. lia.
Qed.

Lemma store_Some p v m m' :
  store p v m = Some (tt, m') -> p ∈ dom m /\ dom m' = dom m.
Proof.
  unfold store. destruct (m !! p) as [old|] eqn:Hp; [|discriminate].
  intros [= <-]. split; [apply elem_of_dom; eauto|].
  apply dom_insert_lookup_L. eauto.
Qed.

Lemma allocated_dom m p :
  (forall r, 0 <= r < 8 -> p + r ∈ dom m) -> allocated m p = true.
Proof.
  intros H. apply allocated_spec. intros r Hr. apply elem_of_dom. now apply H.
Qed.

(** X7: a horizontal shift that returns has found all eight bytes of both
    buffers allocated and a shift in [0,8]; it allocates and frees nothing.
    A call on a shorter buffer or with another shift has no defined
    behaviour. *)
Theorem shiftSymbolHorizontal_footprint int_bits m inp out shift m' :
  shiftSymbolHorizontal int_bits inp out shift m = Some (tt, m') ->
  allocated m inp = true /\ allocated m out = true /\
  0 <= shift <= 8 /\ dom m' = dom m.
Proof.
  intros Hrun. unfold shiftSymbolHorizontal, for_range in Hrun.
  change (Z.to_nat (8 - 0)) with 8%nat in Hrun.
  apply (for_upto_success int_bits
           (fun i D => inp + i ∈ D /\ out + i ∈ D /\
                       exists row, is_Some (rotate_row int_bits row shift)))
    in Hrun.
  - destruct Hrun as [Hdom HP]. repeat split.
    + apply allocated_dom. intros r Hr. apply HP. lia.
    + apply allocated_dom. intros r Hr. apply HP. lia.
    + destruct (HP 0) as (_ & _ & row & v & Hv); [lia|].
      destruct (Z.lt_ge_cases shift 0); [|assumption].
      rewrite rotate_row_out_of_range in Hv by lia. discriminate.
    + destruct (HP 0) as (_ & _ & row & v & Hv); [lia|].
      destruct (Z.lt_ge_cases 8 shift); [|assumption].
      rewrite rotate_row_out_of_range in Hv by lia. discriminate.
    + exact Hdom.
  - intros i mi mi' Hb.
    unfold mbind at 1, M_bind at 1, load in Hb.
    destruct (mi !! (inp + i)) as [row|] eqn:Hrow; [|discriminate].
    unfold mbind at 1, M_bind at 1, ub in Hb.
    destruct (rotate_row int_bits row shift) as [v|] eqn:Hv; [|discriminate].
    apply store_Some in Hb. destruct Hb as [Hout Hdom].
    split; [exact Hdom|]. split; [apply elem_of_dom; eauto|].
    split; [exact Hout|]. exists row. rewrite Hv. eauto.
Qed.

(** X8: a vertical shift that returns has found all eight bytes of both
    buffers allocated: the loop reads every input row and writes every
    output row, whatever the shift; it allocates and frees nothing. *)
Theorem shiftSymbolVertical_footprint int_bits m inp out shift m' :
  shiftSymbolVertical int_bits inp out shift m = Some (tt, m') ->
  allocated m inp = true /\ allocated m out = true /\ dom m' = dom m.
Proof.
  intros Hrun. unfold shiftSymbolVertical in Hrun.
  unfold mbind at 1, M_bind at 1, ub at 1 in Hrun.
  destruct (normalize int_bits shift) as [e|] eqn:Hnorm; [|discriminate].
  assert (0 <= e < 8) as He.
  { unfold normalize in Hnorm.
    destruct (int_rem int_bits shift 8) as [a|] eqn:Ha; [|discriminate].
    unfold int_add in Hnorm.
    destruct (int_of int_bits (a + 8)) as [b|] eqn:Hb; [|discriminate].
    apply int_rem_Some in Ha, Hnorm. apply int_of_Some in Hb. subst.
    Z.to_euclidean_division_equations. lia. }
  unfold for_range in Hrun. change (Z.to_nat (8 - 0)) with 8%nat in Hrun.
  apply (for_upto_success int_bits
           (fun i D => inp + Z.rem (i - e + 8) 8 ∈ D /\ out + i ∈ D))
    in Hrun.
  - destruct Hrun as [Hdom HP]. repeat split.
    + apply allocated_dom. intros r Hr.
      destruct (HP ((r + e) mod 8)) as [Hsrc _].
      { pose proof (Z.mod_pos_bound (r + e) 8). lia. }
      replace (Z.rem ((r + e) mod 8 - e + 8) 8) with r in Hsrc
        by (Z.to_euclidean_division_equations; lia).
      exact Hsrc.
    + apply allocated_dom. intros r Hr. apply HP. lia.
    + exact Hdom.
  - intros i mi mi' Hb.
    unfold mbind at 1, M_bind at 1, ub at 1 in Hb.
    destruct (source_row int_bits i e) as [k|] eqn:Hk; [|discriminate].
    assert (k = Z.rem (i - e + 8) 8) as ->.
    { unfold source_row, int_sub, int_add in Hk.
      destruct (int_of int_bits (i - e)) as [a|] eqn:Ha; [|discriminate].
      destruct (int_of int_bits (a + 8)) as [b|] eqn:Hb'; [|discriminate].
      apply int_rem_Some in Hk. apply int_of_Some in Ha, Hb'. now subst. }
    unfold mbind at 1, M_bind at 1, load in Hb.
    destruct (mi !! (inp + Z.rem (i - e + 8) 8)) as [v|] eqn:Hv; [|discriminate].
    apply store_Some in Hb. destruct Hb as [Hout Hdom].
    split; [exact Hdom|]. split; [apply elem_of_dom; eauto | exact Hout].
Qed.

(** X9: an in-place horizontal shift by [shift] in [1,7] followed by an
    in-place horizontal shift by [8 - shift] restores the whole memory. *)
Theorem shiftSymbolHorizontal_in_place_round_trip int_bits m p shift :
  16 <= int_bits -> 1 <= shift <= 7 -> allocated m p = true ->
  exists m1,
    shiftSymbolHorizontal int_bits p p shift m = Some (tt, m1) /\
    shiftSymbolHorizontal int_bits p p (8 - shift) m1 = Some (tt, m).
Proof.
  intros Hbits Hs Hp.
  destruct (horizontal_run_layout int_bits Hbits m p p shift (fun b => rotl8 b shift))
    as (m1 & Hrun1 & Hfill1); auto; try lia.
  { intros b. apply rotate_row_defined; lia. }
  assert (allocated m1 p = true) as Hp1 by eauto using fills_allocated.
  destruct (horizontal_run_layout int_bits Hbits m1 p p (8 - shift)
              (fun b => rotl8 b (8 - shift)))
    as (m2 & Hrun2 & Hfill2); auto; try lia.
  { intros b. apply rotate_row_defined; lia. }
  exists m1. split; [exact Hrun1|]. rewrite Hrun2. do 2 f_equal.
  apply map_eq. intros a.
  destruct (decide (in_buffer p a)) as [Hin|Hin].
  - unfold in_buffer in Hin. replace a with (p + (a - p)) by lia.
    rewrite (fills_row _ _ _ _ _ Hfill2) by lia.
    rewrite (fills_row _ _ _ _ _ Hfill1) by lia.
    destruct (m !! (p + (a - p))) as [b|]; [|reflexivity].
    cbn. now rewrite rotl8_inverse.
  - destruct Hfill1 as [Hframe1 _]. destruct Hfill2 as [Hframe2 _].
    now rewrite Hframe2, Hframe1.
Qed.

(** ** The further properties on concrete memories *)

Lemma shiftSymbolHorizontal_backward_overlap_witness :
  exists m',
    shiftSymbolHorizontal 16 3 0 3 (demo_mem demo_symbol) = Some (tt, m') /\
    (forall a, ~ in_buffer 0 a -> m' !! a = demo_mem demo_symbol !! a) /\
    forall r, 0 <= r < 8 ->
      exists b b',
        demo_mem demo_symbol !! (3 + r) = Some b /\
        m' !! (0 + r) = Some b' /\
        rotate_row 16 b 3 = Some b' /\
        forall c, 0 <= c < 8 ->
          Z.testbit (byte.unsigned b') ((c + 3) mod 8) =
          Z.testbit (byte.unsigned b) c.
Proof.
  apply (shiftSymbolHorizontal_backward_overlap 16).
  - lia.
  - lia.
  - vm_compute. reflexivity.
  - vm_compute. reflexivity.
  - lia.
Defined.

Lemma shiftSymbolHorizontal_compose_witness :
  exists m1 m2 m3,
    shiftSymbolHorizontal 16 0 8 5 (demo_mem demo_symbol) = Some (tt, m1) /\
    shiftSymbolHorizontal 16 8 16 6 m1 = Some (tt, m2) /\
    shiftSymbolHorizontal 16 0 16 ((5 + 6) mod 8) (demo_mem demo_symbol) = Some (tt, m3) /\
    read_symbol m2 16 = read_symbol m3 16 /\
    is_Some (read_symbol m3 16).
Proof.
  apply (shiftSymbolHorizontal_compose 16).
  - lia.
  - lia.
  - lia.
  - vm_compute. reflexivity.
  - vm_compute. reflexivity.
  - vm_compute. reflexivity.
  - unfold disjoint. lia.
  - unfold disjoint. lia.
  - unfold disjoint. lia.
Defined.

Lemma shiftSymbolHorizontal_out_of_range_witness :
  (forall row, rotate_row 32 row 9 = None) /\
  shiftSymbolHorizontal 32 0 8 9 (demo_mem demo_symbol) = None.
Proof.
  apply (shiftSymbolHorizontal_out_of_range 32). lia.
Defined.

Lemma shiftSymbolHorizontal_8_copies_witness :
  exists m',
    shiftSymbolHorizontal 32 0 8 8 (demo_mem demo_symbol) = Some (tt, m') /\
    (forall a, ~ in_buffer 8 a -> m' !! a = demo_mem demo_symbol !! a) /\
    read_symbol m' 8 = read_symbol (demo_mem demo_symbol) 0 /\
    is_Some (read_symbol (demo_mem demo_symbol) 0).
Proof.
  apply (shiftSymbolHorizontal_8_copies 32).
  - lia.
  - vm_compute. reflexivity.
  - vm_compute. reflexivity.
  - unfold disjoint. lia.
Defined.

Lemma shiftSymbolVertical_rotates_list_witness :
  let k := Z.to_nat ((- (-3)) mod 8) in
  exists m',
    shiftSymbolVertical 16 0 8 (-3) (demo_mem demo_symbol) = Some (tt, m') /\
    read_symbol m' 8 = Some (drop k demo_symbol ++ take k demo_symbol) /\
    drop k demo_symbol ++ take k demo_symbol ≡ₚ demo_symbol.
Proof.
  apply (shiftSymbolVertical_rotates_list 16).
  - lia.
  - unfold is_int, INT_MIN, INT_MAX. simpl. lia.
  - vm_compute. reflexivity.
  - vm_compute. reflexivity.
  - unfold disjoint. lia.
  - vm_compute. reflexivity.
Defined.

Lemma shiftSymbolVertical_in_place_witness :
  exists m',
    shiftSymbolVertical 16 0 0 3 (demo_mem demo_symbol) = Some (tt, m') /\
    (forall a, ~ in_buffer 0 a -> m' !! a = demo_mem demo_symbol !! a) /\
    forall r, 0 <= r < 8 ->
      m' !! (0 + r) =
      demo_mem demo_symbol !! (0 + (if 3 mod 8 =? 0 then r
                                    else 8 - 3 mod 8 + r mod (3 mod 8))).
Proof.
  apply (shiftSymbolVertical_in_place 16).
  - lia.
  - unfold is_int, INT_MIN, INT_MAX. simpl. lia.
  - vm_compute. reflexivity.
Defined.

Lemma shiftSymbolHorizontal_footprint_witness :
  allocated (demo_mem demo_symbol) 0 = true /\
  allocated (demo_mem demo_symbol) 8 = true /\
  0 <= 3 <= 8 /\
  dom (default ∅ (snd <$> shiftSymbolHorizontal 16 0 8 3 (demo_mem demo_symbol))) =
  dom (demo_mem demo_symbol).
Proof.
  apply (shiftSymbolHorizontal_footprint 16).
  vm_compute. reflexivity.
Defined.

Lemma shiftSymbolVertical_footprint_witness :
  allocated (demo_mem demo_symbol) 0 = true /\
  allocated (demo_mem demo_symbol) 8 = true /\
  dom (default ∅ (snd <$> shiftSymbolVertical 16 0 8 (-3) (demo_mem demo_symbol))) =
  dom (demo_mem demo_symbol).
Proof.
  apply (shiftSymbolVertical_footprint 16 _ _ _ (-3)).
  vm_compute. reflexivity.
Defined.

Lemma shiftSymbolHorizontal_in_place_round_trip_witness :
  exists m1,
    shiftSymbolHorizontal 16 0 0 3 (demo_mem demo_symbol) = Some (tt, m1) /\
    shiftSymbolHorizontal 16 0 0 (8 - 3) m1 = Some (tt, demo_mem demo_symbol).
Proof.
  apply (shiftSymbolHorizontal_in_place_round_trip 16).
  - lia.
  - lia.
  - vm_compute. reflexivity.
Defined.
